(** * Team roster: a shallow embedding of [team_roster.py]

    The script keeps one module-level list [team] of [TeamMember] objects
    and offers three functions on it: [display_team], [add_member] and
    [find_member].  Each Python function becomes a computation in a state
    monad over [World], the part of the interpreter state the script can
    observe: the global list, the text written to standard output so far,
    and the allocation counter that gives every constructed object its
    identity. *)

From Stdlib Require Import String Ascii List Arith Lia Bool DecimalString.
From ExtLib Require Import Structures.Monad Structures.MonadState.
From ExtLib Require Import Data.Monads.StateMonad.
Import ListNotations.
Import MonadNotation.
Local Open Scope string_scope.
Local Open Scope list_scope.
Local Open Scope monad_scope.

Set Implicit Arguments.

(** ** The Python built-ins the script relies on *)

Module PyStr.

(** The line terminator [print] writes after its argument. *)
Definition nl : string := String (ascii_of_nat 10) EmptyString.

(** [s * n] on strings. *)
Fixpoint mul (s : string) (n : nat) : string :=
  match n with
  | O => EmptyString
  | S n' => (s ++ mul s n')%string
  end.

(** How an f-string renders a non-negative [int]: decimal digits, no
    sign, no leading zero. *)
Definition format_int (n : nat) : string :=
  NilEmpty.string_of_uint (Nat.to_uint n).

(** [str.lower] restricted to ASCII text: the letters [A]..[Z] move to
    [a]..[z], every other character stays.  On text made of ASCII
    characters only this is what [str.lower] computes. *)
Definition lower_char (c : ascii) : ascii :=
  let n := nat_of_ascii c in
  if ((65 <=? n) && (n <=? 90))%nat then ascii_of_nat (n + 32) else c.

Fixpoint lower_ascii (s : string) : string :=
  match s with
  | EmptyString => EmptyString
  | String c s' => String (lower_char c) (lower_ascii s')
  end.

(** A text is ASCII when each of its characters is below 128. *)
Fixpoint is_ascii (s : string) : bool :=
  match s with
  | EmptyString => true
  | String c s' => (nat_of_ascii c <? 128)%nat && is_ascii s'
  end.

(** What the development assumes of the interpreter's [str.lower]
    wherever a statement depends on more than its being a function:
    on ASCII text it is [lower_ascii], and lowering twice is lowering
    once. *)
Record lower_spec (lower : string -> string) : Prop := {
  lower_on_ascii : forall s, is_ascii s = true -> lower s = lower_ascii s;
  lower_idempotent : forall s, lower (lower s) = lower s
}.

End PyStr.

(** ** Objects and interpreter state *)

(** [class TeamMember]: the three attributes set by [__init__], together
    with the identity [oid] the object receives when it is constructed.
    Two members built from the same three strings are distinct objects in
    Python, and they differ in [oid] here. *)
Record TeamMember : Type := mkTeamMember {
  oid : nat;
  name : string;
  role : string;
  favorite_language : string
}.

(** [TeamMember.introduce] *)
Definition introduce (self : TeamMember) : string :=
  ("Hi! I'm " ++ name self ++ ", a " ++ role self
    ++ ". I love coding in " ++ favorite_language self ++ "!")%string.

(** What a call returns: [None], or a reference to a member. *)
Inductive value : Type :=
| VNone
| VMember (member : TeamMember).

Record World : Type := mkWorld {
  next_oid : nat;           (* identity of the next object constructed *)
  team : list TeamMember;   (* the module-level list [team] *)
  stdout : string           (* everything written to standard output *)
}.

Definition Py : Type -> Type := state World.

(** [print(s)]: [s] and a line terminator go to standard output. *)
Definition print (s : string) : Py unit :=
  w <- get ;;
  put (mkWorld (next_oid w) (team w) (stdout w ++ s ++ PyStr.nl)%string).

(** [TeamMember(name, role, favorite_language)]: a fresh object. *)
Definition new_TeamMember (name role favorite_language : string)
  : Py TeamMember :=
  w <- get ;;
  put (mkWorld (S (next_oid w)) (team w) (stdout w)) ;;
  ret (mkTeamMember (next_oid w) name role favorite_language).

(** [team = [...]] *)
Definition team_assign (l : list TeamMember) : Py unit :=
  w <- get ;;
  put (mkWorld (next_oid w) l (stdout w)).

(** [team.append(m)] *)
Definition team_append (m : TeamMember) : Py unit :=
  w <- get ;;
  put (mkWorld (next_oid w) (team w ++ [m]) (stdout w)).

(** [for x in l: body(x)], for a body that leaves [l] alone. *)
Fixpoint for_each (A : Type) (l : list A) (body : A -> Py unit) : Py unit :=
  match l with
  | [] => ret tt
  | x :: l' => body x ;; for_each l' body
  end.

(** ** The script *)

(** The module-level statement that builds the seed list. *)
Definition team_init : Py unit :=
  m0 <- new_TeamMember "Alice Chen" "Senior Developer" "Python" ;;
  m1 <- new_TeamMember "Bob Wang" "DevOps Engineer" "Go" ;;
  m2 <- new_TeamMember "Carol Lin" "Frontend Developer" "JavaScript" ;;
  team_assign [m0; m1; m2].

Definition display_team : Py value :=
  print (PyStr.mul "=" 50) ;;
  print "TEAM ROSTER" ;;
  print (PyStr.mul "=" 50) ;;
  members <- gets team ;;
  for_each members (fun member => print (introduce member)) ;;
  members' <- gets team ;;
  print (PyStr.nl ++ "Total team members: "
           ++ PyStr.format_int (length members'))%string ;;
  print (PyStr.mul "=" 50) ;;
  ret VNone.

Definition add_member (name role favorite_language : string) : Py value :=
  new_member <- new_TeamMember name role favorite_language ;;
  team_append new_member ;;
  print ("Welcome " ++ name ++ " to the team!")%string ;;
  ret VNone.

Section Find.

(** The interpreter's [str.lower]. *)
Variable lower : string -> string.

(** A member answers a query when the two names agree once lowered. *)
Definition answers (query : string) (m : TeamMember) : Prop :=
  lower (name m) = lower query.

(** The loop of [find_member], which leaves at the first hit. *)
Fixpoint find_loop (members : list TeamMember) (query : string) : value :=
  match members with
  | [] => VNone
  | member :: rest =>
      if (lower (name member) =? lower query)%string
      then VMember member
      else find_loop rest query
  end.

Definition find_member (query : string) : Py value :=
  members <- gets team ;;
  ret (find_loop members query).

End Find.

(** [if __name__ == "__main__": display_team()] *)
Definition main : Py value := display_team.

(** The whole script, run as a program. *)
Definition script : Py value := team_init ;; main.

(** The interpreter state before the first statement of the script. *)
Definition boot : World := mkWorld 0 [] EmptyString.

(** The state once the module-level statements have run. *)
Definition seeded : World := execState team_init boot.

(** ** Expected texts *)

Definition banner : string :=
  "==================================================".

Definition unlines (ls : list string) : string :=
  fold_right (fun l acc => (l ++ PyStr.nl ++ acc)%string) EmptyString ls.

(** The block of section 6 of the specification. *)
Definition golden : string :=
  unlines
    [ banner;
      "TEAM ROSTER";
      banner;
      "Hi! I'm Alice Chen, a Senior Developer. I love coding in Python!";
      "Hi! I'm Bob Wang, a DevOps Engineer. I love coding in Go!";
      "Hi! I'm Carol Lin, a Frontend Developer. I love coding in JavaScript!";
      EmptyString;
      "Total team members: 3";
      banner ].

(** The block [display_team] writes for a given list of members. *)
Definition block (members : list TeamMember) : string :=
  unlines
    ([banner; "TEAM ROSTER"; banner]
       ++ map introduce members
       ++ [EmptyString;
           ("Total team members: " ++ PyStr.format_int (length members))%string;
           banner]).

(** ** Sequences of calls *)

(** A caller of the module can do three things with the roster. *)
Inductive call : Type :=
| CallAdd (name role favorite_language : string)
| CallFind (query : string)
| CallDisplay.

Definition run_call (lower : string -> string) (c : call) : Py value :=
  match c with
  | CallAdd n r f => add_member n r f
  | CallFind q => find_member lower q
  | CallDisplay => display_team
  end.

Fixpoint run_calls (lower : string -> string) (cs : list call) : Py unit :=
  match cs with
  | [] => ret tt
  | c :: cs' => run_call lower c ;; run_calls lower cs'
  end.

(** How many of the calls are [add_member] calls. *)
Fixpoint adds (cs : list call) : nat :=
  match cs with
  | [] => 0
  | CallAdd _ _ _ :: cs' => S (adds cs')
  | _ :: cs' => adds cs'
  end.

(** The member [add_member n r f] constructs when run in [w]. *)
Definition constructed (w : World) (n r f : string) : TeamMember :=
  mkTeamMember (next_oid w) n r f.

(** What one call adds to the list. *)
Definition appended (w : World) (c : call) : list TeamMember :=
  match c with
  | CallAdd n r f => [constructed w n r f]
  | _ => []
  end.

(** The three texts a member was built from. *)
Definition attrs (m : TeamMember) : string * string * string :=
  (name m, role m, favorite_language m).

(** One [add_member] call per triple, in the order given. *)
Definition add_calls (ts : list (string * string * string)) : list call :=
  map (fun t => CallAdd (fst (fst t)) (snd (fst t)) (snd t)) ts.

(** The line [add_member] writes, terminator included. *)
Definition welcome (n : string) : string :=
  (("Welcome " ++ n ++ " to the team!") ++ PyStr.nl)%string.

(** What one call writes to standard output. *)
Definition written (w : World) (c : call) : string :=
  match c with
  | CallAdd n _ _ => welcome n
  | CallFind _ => EmptyString
  | CallDisplay =>
      unlines
        ([banner; "TEAM ROSTER"; banner]
           ++ map introduce (team w)
           ++ [EmptyString;
               ("Total team members: "
                  ++ PyStr.format_int (length (team w)))%string;
               banner])
  end.

(** Every object in the list was allocated before the counter's present
    value, and no identity occurs twice. *)
Definition fresh_ids (w : World) : Prop :=
  Forall (fun m => oid m < next_oid w) (team w)
  /\ NoDup (map oid (team w)).

(** Line terminators in a text. *)
Fixpoint count_nl (s : string) : nat :=
  match s with
  | EmptyString => 0
  | String c s' =>
      (if Ascii.eqb c (ascii_of_nat 10) then 1 else 0) + count_nl s'
  end.

(** Line terminators inside the three attributes of a member. *)
Definition attr_nl (m : TeamMember) : nat :=
  count_nl (name m) + count_nl (role m) + count_nl (favorite_language m).

(** The members a sequence of calls constructs, in the order it constructs
    them, when the allocation counter stands at [k] as the sequence
    starts. *)
Fixpoint added_by (k : nat) (cs : list call) : list TeamMember :=
  match cs with
  | [] => []
  | CallAdd n r f :: cs' => mkTeamMember k n r f :: added_by (S k) cs'
  | _ :: cs' => added_by k cs'
  end.

(** ** Auxiliary facts *)

Lemma app_nil_r_string (s : string) : (s ++ EmptyString)%string = s.
Proof. induction s as [|c s IH]; simpl; [reflexivity | now rewrite IH]. Qed.

Lemma app_assoc_string (a b c : string) :
  (a ++ (b ++ c))%string = ((a ++ b) ++ c)%string.
Proof. induction a as [|x a IH]; simpl; [reflexivity | now rewrite IH]. Qed.

Lemma unlines_app (xs ys : list string) :
  unlines (xs ++ ys) = (unlines xs ++ unlines ys)%string.
Proof.
  induction xs as [|x xs IH]; [reflexivity |].
  change (unlines ((x :: xs) ++ ys))
    with (x ++ PyStr.nl ++ unlines (xs ++ ys))%string.
  change (unlines (x :: xs)) with (x ++ PyStr.nl ++ unlines xs)%string.
  rewrite IH. now rewrite !app_assoc_string.
Qed.

(** Sequencing threads the state from the first computation to the next. *)
Lemma runState_bind (A B : Type) (c : Py A) (k : A -> Py B) (w : World) :
  runState (bind c k) w
  = runState (k (evalState c w)) (execState c w).
Proof.
  unfold evalState, execState. cbn [bind Monad_state runState].
  now destruct (runState c w).
Qed.

Lemma print_run (s : string) (w : World) :
  runState (print s) w
  = (tt, mkWorld (next_oid w) (team w) (stdout w ++ s ++ PyStr.nl)%string).
Proof. reflexivity. Qed.

(** The loop of [display_team] writes one introduction per member, in list
    order, and touches nothing but standard output. *)
Lemma for_each_introduce_run (l : list TeamMember) (w : World) :
  runState (for_each l (fun member => print (introduce member))) w
  = (tt, mkWorld (next_oid w) (team w)
           (stdout w ++ unlines (map introduce l))%string).
Proof.
  revert w. induction l as [|m l IH]; intros [k t out].
  - simpl. now rewrite app_nil_r_string.
  - cbn [for_each map]. change (unlines (introduce m :: map introduce l))
      with (introduce m ++ PyStr.nl ++ unlines (map introduce l))%string.
    cbn [bind Monad_state runState]. rewrite print_run. cbn [snd fst].
    rewrite IH. cbn [next_oid team stdout snd].
    now rewrite !app_assoc_string.
Qed.

Lemma display_team_run (w : World) :
  runState display_team w
  = (VNone, mkWorld (next_oid w) (team w) (stdout w ++ block (team w))%string).
Proof.
  destruct w as [k t out]. unfold display_team, block.
  cbn [bind Monad_state runState gets MonadState_state print get put
       next_oid team stdout fst snd ret].
  rewrite for_each_introduce_run.
  cbn [next_oid team stdout fst snd]. f_equal. f_equal.
  rewrite !unlines_app. cbn [unlines fold_right].
  change (PyStr.mul "=" 50) with banner.
  now rewrite ?app_assoc_string, ?app_nil_r_string.
Qed.

Lemma add_member_run (n r f : string) (w : World) :
  runState (add_member n r f) w
  = (VNone,
     mkWorld (S (next_oid w))
       (team w ++ [mkTeamMember (next_oid w) n r f])
       (stdout w ++ ("Welcome " ++ n ++ " to the team!") ++ PyStr.nl)%string).
Proof. reflexivity. Qed.

Lemma find_member_run (lower : string -> string) (q : string) (w : World) :
  runState (find_member lower q) w = (find_loop lower (team w) q, w).
Proof. destruct w; reflexivity. Qed.

Example banner_is_50_equals : banner = PyStr.mul "=" 50.
Proof. reflexivity. Qed.

Example seeded_world :
  seeded =
  mkWorld 3
    [ mkTeamMember 0 "Alice Chen" "Senior Developer" "Python";
      mkTeamMember 1 "Bob Wang" "DevOps Engineer" "Go";
      mkTeamMember 2 "Carol Lin" "Frontend Developer" "JavaScript" ]
    EmptyString.
Proof. reflexivity. Qed.

(** C1: running the script from a fresh interpreter writes exactly the
    block of section 6 to standard output: a banner of 50 [=], the line
    TEAM ROSTER, the banner, one introduction per seed member in insertion
    order, an empty line, the count line for 3 members, and the banner. *)
Theorem script_prints_golden :
  stdout (execState script boot) = golden
  /\ stdout (execState display_team seeded) = golden
  /\ String.length banner = 50
  /\ banner = PyStr.mul "=" 50.
Proof. repeat split; reflexivity. Qed.

(** ** [str.lower] on ASCII text *)

Lemma lower_char_idempotent (c : ascii) :
  PyStr.lower_char (PyStr.lower_char c) = PyStr.lower_char c.
Proof.
  destruct c as [b0 b1 b2 b3 b4 b5 b6 b7].
  destruct b0, b1, b2, b3, b4, b5, b6, b7; reflexivity.
Qed.

Lemma lower_ascii_idempotent (s : string) :
  PyStr.lower_ascii (PyStr.lower_ascii s) = PyStr.lower_ascii s.
Proof.
  induction s as [|c s IH]; [reflexivity |].
  cbn [PyStr.lower_ascii]. now rewrite lower_char_idempotent, IH.
Qed.

Lemma lower_ascii_spec : PyStr.lower_spec PyStr.lower_ascii.
Proof.
  split.
  - intros s _. reflexivity.
  - exact lower_ascii_idempotent.
Qed.

(** ** The loop of [find_member] *)

Section FindFacts.

Variable lower : string -> string.

Lemma find_loop_first (members : list TeamMember) (query : string) :
  (exists before m after,
      members = before ++ m :: after
      /\ Forall (fun m' => ~ answers lower query m') before
      /\ answers lower query m
      /\ find_loop lower members query = VMember m)
  \/ (Forall (fun m' => ~ answers lower query m') members
      /\ find_loop lower members query = VNone).
Proof.
  induction members as [|m members IH].
  - right. split; [constructor | reflexivity].
  - cbn [find_loop].
    destruct (String.eqb_spec (lower (name m)) (lower query)) as [E | N].
    + left. exists [], m, members. repeat split; [constructor | exact E].
    + destruct IH as [(before & m' & after & -> & Hb & Hm & Hf) | [Hn Hf]].
      * left. exists (m :: before), m', after.
        repeat split; [constructor; assumption | exact Hm | exact Hf].
      * right. split; [constructor; assumption | exact Hf].
Qed.

(** Only the lowered query matters. *)
Lemma find_loop_lower_eq (members : list TeamMember) (q1 q2 : string) :
  lower q1 = lower q2 ->
  find_loop lower members q1 = find_loop lower members q2.
Proof.
  intros E. induction members as [|m members IH]; [reflexivity |].
  cbn [find_loop]. now rewrite E, IH.
Qed.

(** A hit in a prefix of the list is the hit in the whole list. *)
Lemma find_loop_app (xs ys : list TeamMember) (query : string) :
  find_loop lower (xs ++ ys) query
  = match find_loop lower xs query with
    | VNone => find_loop lower ys query
    | hit => hit
    end.
Proof.
  induction xs as [|m xs IH]; [reflexivity |].
  cbn [find_loop List.app].
  destruct (lower (name m) =? lower query)%string; [reflexivity | exact IH].
Qed.

End FindFacts.

(** ** Calls and the list *)

Lemma run_call_team (lower : string -> string) (c : call) (w : World) :
  team (execState (run_call lower c) w) = team w ++ appended w c.
Proof.
  destruct c as [n r f | q |]; unfold execState; cbn [run_call appended].
  - rewrite add_member_run. reflexivity.
  - rewrite find_member_run. cbn [snd]. now rewrite app_nil_r.
  - rewrite display_team_run. cbn [snd team]. now rewrite app_nil_r.
Qed.

Lemma run_calls_team (lower : string -> string) (cs : list call) (w : World) :
  exists added,
    team (execState (run_calls lower cs) w) = team w ++ added
    /\ length added = adds cs.
Proof.
  revert w. induction cs as [|c cs IH]; intros w.
  - exists []. split; [cbn; now rewrite app_nil_r | reflexivity].
  - cbn [run_calls]. unfold execState at 1. rewrite runState_bind.
    fold (execState (run_calls lower cs) (execState (run_call lower c) w)).
    destruct (IH (execState (run_call lower c) w)) as (added & Ht & Hl).
    rewrite Ht, run_call_team, <- app_assoc.
    exists (appended w c ++ added). split; [reflexivity |].
    rewrite length_app, Hl. destruct c; reflexivity.
Qed.

(** ** The operations of the roster *)

(** C2: for every state and every query, [find_member] returns the first
    member, in insertion order, whose name equals the query once both are
    lowered, and returns [None] when no member's name does; the state is
    left as it was. *)
Theorem find_member_first_match
  (lower : string -> string) (query : string) (w : World) :
  execState (find_member lower query) w = w
  /\ ((exists before m after,
          team w = before ++ m :: after
          /\ Forall (fun m' => lower (name m') <> lower query) before
          /\ lower (name m) = lower query
          /\ evalState (find_member lower query) w = VMember m)
      \/ (Forall (fun m' => lower (name m') <> lower query) (team w)
          /\ evalState (find_member lower query) w = VNone)).
Proof.
  unfold execState, evalState. rewrite find_member_run. cbn [fst snd].
  split; [reflexivity |]. exact (find_loop_first lower (team w) query).
Qed.

(** On the seed roster the query Nonexistent finds nobody. *)
Lemma find_nonexistent (lower : string -> string) :
  PyStr.lower_spec lower ->
  evalState (find_member lower "Nonexistent") seeded = VNone.
Proof.
  intros [Hascii _]. unfold evalState. rewrite find_member_run.
  cbn [fst seeded]. unfold seeded. cbn.
  rewrite !Hascii by reflexivity. reflexivity.
Qed.

(** C3, as amended: for every triple of texts, [add_member] constructs a
    member holding exactly these three texts, appends it at the end of the
    list, and returns [None] to the caller. *)
Theorem add_member_appends_returns_none (n r f : string) (w : World) :
  exists m,
    name m = n /\ role m = r /\ favorite_language m = f
    /\ team (execState (add_member n r f) w) = team w ++ [m]
    /\ evalState (add_member n r f) w = VNone.
Proof.
  exists (constructed w n r f). unfold execState, evalState.
  rewrite add_member_run. repeat split.
Qed.

(** C3, as stated, fails: adding Dana Kim to the seed roster constructs and
    appends her, yet the call returns [None], not the member. *)
Lemma add_member_does_not_return_member :
  let dana := mkTeamMember 3 "Dana Kim" "Intern" "Rust" in
  team (execState (add_member "Dana Kim" "Intern" "Rust") seeded)
  = team seeded ++ [dana]
  /\ evalState (add_member "Dana Kim" "Intern" "Rust") seeded = VNone
  /\ ~ (exists m,
          evalState (add_member "Dana Kim" "Intern" "Rust") seeded
          = VMember m).
Proof.
  repeat split. intros [m H]. discriminate H.
Qed.

(** C4: for every triple and every state, [add_member] makes the list one
    longer, and the block a later [display_team] writes has the new
    member's introduction as its last introduction line and the new count;
    after adding Dana Kim to the seed roster the block reports 4 members
    and her line is the fourth. *)
Theorem add_member_then_display (n r f : string) (w : World) :
  let w1 := execState (add_member n r f) w in
  length (team w1) = S (length (team w))
  /\ stdout (execState display_team w1)
     = (stdout w1
        ++ unlines
             ([banner; "TEAM ROSTER"; banner]
                ++ map introduce (team w)
                ++ [("Hi! I'm " ++ n ++ ", a " ++ r
                       ++ ". I love coding in " ++ f ++ "!");
                    EmptyString;
                    ("Total team members: "
                       ++ PyStr.format_int (S (length (team w))));
                    banner]))%string
  /\ stdout (execState display_team
               (execState (add_member "Dana Kim" "Intern" "Rust") seeded))
     = unlines
         [ "Welcome Dana Kim to the team!";
           banner;
           "TEAM ROSTER";
           banner;
           "Hi! I'm Alice Chen, a Senior Developer. I love coding in Python!";
           "Hi! I'm Bob Wang, a DevOps Engineer. I love coding in Go!";
           "Hi! I'm Carol Lin, a Frontend Developer. I love coding in JavaScript!";
           "Hi! I'm Dana Kim, a Intern. I love coding in Rust!";
           EmptyString;
           "Total team members: 4";
           banner ].
Proof.
  cbv zeta. unfold execState. rewrite add_member_run.
  rewrite !display_team_run. cbn [snd team stdout next_oid].
  split; [| split].
  - rewrite length_app. cbn [length]. lia.
  - f_equal. unfold block. rewrite length_app, map_app.
    cbn [length map]. rewrite Nat.add_1_r, <- app_assoc. reflexivity.
  - reflexivity.
Qed.

(** C5: adding two members under one name keeps both, as two distinct
    objects in the order added, and [find_member] on that name then returns
    the first member of the roster, in insertion order, whose lowered name
    is the lowered name queried: a member that was in the roster before
    with such a name and nobody with such a name ahead of it or, when the
    roster held no such member, the first of the two added; never the
    second.  The lookup leaves the state alone. *)
Theorem duplicate_names_first_wins
  (lower : string -> string) (n r1 f1 r2 f2 : string) (w : World) :
  let first := mkTeamMember (next_oid w) n r1 f1 in
  let second := mkTeamMember (S (next_oid w)) n r2 f2 in
  let w2 := execState (add_member n r2 f2) (execState (add_member n r1 f1) w) in
  team w2 = team w ++ [first; second]
  /\ first <> second
  /\ execState (find_member lower n) w2 = w2
  /\ ((exists before m after,
          team w = before ++ m :: after
          /\ Forall (fun m' => lower (name m') <> lower n) before
          /\ lower (name m) = lower n
          /\ evalState (find_member lower n) w2 = VMember m)
      \/ (Forall (fun m' => lower (name m') <> lower n) (team w)
          /\ evalState (find_member lower n) w2 = VMember first))
  /\ evalState (find_member lower n) w2
     = match evalState (find_member lower n) w with
       | VNone => VMember first
       | hit => hit
       end
  /\ evalState (find_member PyStr.lower_ascii "Dana Kim")
       (execState (add_member "Dana Kim" "Mentor" "OCaml")
          (execState (add_member "Dana Kim" "Intern" "Rust") seeded))
     = VMember (mkTeamMember 3 "Dana Kim" "Intern" "Rust").
Proof.
  cbv zeta. unfold execState, evalState.
  rewrite !add_member_run, !find_member_run.
  cbn [fst snd team next_oid]. rewrite <- app_assoc. cbn [List.app].
  assert (Hrel : find_loop lower
                   (team w ++ [mkTeamMember (next_oid w) n r1 f1;
                               mkTeamMember (S (next_oid w)) n r2 f2]) n
                 = match find_loop lower (team w) n with
                   | VNone => VMember (mkTeamMember (next_oid w) n r1 f1)
                   | hit => hit
                   end).
  { rewrite find_loop_app. cbn [find_loop name].
    now rewrite String.eqb_refl. }
  split; [reflexivity |]. split.
  { intros E. injection E as E. exact (Nat.neq_succ_diag_r _ E). }
  split; [reflexivity |]. split; [| split; [exact Hrel | reflexivity]].
  rewrite Hrel.
  destruct (find_loop_first lower (team w) n)
    as [(before & m & after & Ht & Hb & Hm & Hf) | [Hn Hf]].
  - left. exists before, m, after. rewrite Hf.
    split; [exact Ht |]. split; [exact Hb |]. split; [exact Hm | reflexivity].
  - right. rewrite Hf. split; [exact Hn | reflexivity].
Qed.

Example duplicate_names_on_seed :
  evalState (find_member PyStr.lower_ascii "dana kim")
    (execState (add_member "Dana Kim" "Mentor" "OCaml")
       (execState (add_member "Dana Kim" "Intern" "Rust") seeded))
  = VMember (mkTeamMember 3 "Dana Kim" "Intern" "Rust").
Proof. reflexivity. Qed.

(** C6: after any sequence of calls, run from any state, the list is the
    list at the start followed by one member per [add_member] call: each
    call leaves the members already present in place and unchanged, and
    from the seed roster the length is 3 plus the number of [add_member]
    calls. *)
Theorem roster_length_invariant
  (lower : string -> string) (cs : list call) (w : World) :
  (forall c, team (execState (run_call lower c) w) = team w ++ appended w c)
  /\ (exists added,
        team (execState (run_calls lower cs) w) = team w ++ added
        /\ length added = adds cs)
  /\ length (team (execState (run_calls lower cs) w))
     = length (team w) + adds cs
  /\ firstn (length (team w)) (team (execState (run_calls lower cs) w))
     = team w
  /\ length (team seeded) = 3
  /\ length (team (execState (run_calls lower cs) seeded)) = 3 + adds cs.
Proof.
  split; [intros c; apply run_call_team |].
  destruct (run_calls_team lower cs w) as (added & Ht & Hl).
  destruct (run_calls_team lower cs seeded) as (added' & Ht' & Hl').
  split; [exists added; split; assumption |].
  rewrite Ht, Ht', !length_app, Hl, Hl'. repeat split.
  rewrite firstn_app, Nat.sub_diag, firstn_all. cbn [firstn].
  now rewrite app_nil_r.
Qed.


(** C8: [find_member] does not see the case of its argument: in every
    state the queries alice chen, ALICE CHEN and Alice Chen get the same
    answer (on the seed roster, the member Alice Chen), and a query and its
    lowered form get the same answer. *)
Theorem find_member_case_invariant
  (lower : string -> string) (Hlower : PyStr.lower_spec lower) (w : World) :
  (forall q,
      runState (find_member lower (lower q)) w
      = runState (find_member lower q) w)
  /\ runState (find_member lower "alice chen") w
     = runState (find_member lower "Alice Chen") w
  /\ runState (find_member lower "ALICE CHEN") w
     = runState (find_member lower "Alice Chen") w
  /\ evalState (find_member lower "alice chen") seeded
     = VMember (mkTeamMember 0 "Alice Chen" "Senior Developer" "Python").
Proof.
  destruct Hlower as [Hascii Hidem].
  assert (Hsame : forall q1 q2, lower q1 = lower q2 ->
            runState (find_member lower q1) w
            = runState (find_member lower q2) w).
  { intros q1 q2 E. rewrite !find_member_run.
    now rewrite (find_loop_lower_eq lower (team w) q1 q2 E). }
  split; [intros q; apply Hsame, Hidem |].
  split; [apply Hsame; rewrite !Hascii by reflexivity; reflexivity |].
  split; [apply Hsame; rewrite !Hascii by reflexivity; reflexivity |].
  unfold evalState. rewrite find_member_run. cbn.
  rewrite !Hascii by reflexivity. reflexivity.
Qed.

Lemma find_member_case_invariant_ascii :
  PyStr.lower_spec PyStr.lower_ascii
  /\ runState (find_member PyStr.lower_ascii "ALICE CHEN") seeded
     = runState (find_member PyStr.lower_ascii "Alice Chen") seeded.
Proof.
  split.
  - exact lower_ascii_spec.
  - exact (proj1 (proj2 (proj2
             (@find_member_case_invariant PyStr.lower_ascii
                lower_ascii_spec seeded)))).
Defined.

(** C9: [display_team] changes no program state: the list, with every
    member's attributes, and the allocation counter are as before; the one
    effect is the block appended to standard output. *)
Theorem display_team_frame (w : World) :
  team (execState display_team w) = team w
  /\ next_oid (execState display_team w) = next_oid w
  /\ stdout (execState display_team w) = (stdout w ++ block (team w))%string
  /\ evalState display_team w = VNone.
Proof.
  unfold execState, evalState. rewrite display_team_run. repeat split.
Qed.

(** C10: on an empty roster [display_team] runs to completion and writes
    the banner, TEAM ROSTER, the banner, no member line, an empty line, the
    count line for 0 members, and the banner. *)
Theorem display_team_empty (k : nat) (out : string) :
  runState display_team (mkWorld k [] out)
  = (VNone,
     mkWorld k []
       (out ++ unlines [ banner;
                         "TEAM ROSTER";
                         banner;
                         EmptyString;
                         "Total team members: 0";
                         banner ])%string).
Proof. rewrite display_team_run. reflexivity. Qed.

(** ** Further properties of the three functions *)

Lemma run_calls_cons (lower : string -> string) (c : call) (cs : list call)
  (w : World) :
  execState (run_calls lower (c :: cs)) w
  = execState (run_calls lower cs) (execState (run_call lower c) w).
Proof.
  cbn [run_calls]. unfold execState at 1. now rewrite runState_bind.
Qed.

(** The whole effect of one call on the state. *)
Lemma run_call_exec (lower : string -> string) (c : call) (w : World) :
  execState (run_call lower c) w
  = mkWorld (next_oid w + adds [c]) (team w ++ appended w c)
      (stdout w ++ written w c)%string.
Proof.
  destruct w as [k t out]. destruct c as [n r f | q |]; unfold execState.
  - cbn [run_call]. rewrite add_member_run.
    cbn [snd next_oid team stdout adds appended written welcome].
    now rewrite Nat.add_1_r.
  - cbn [run_call]. rewrite find_member_run.
    cbn [snd next_oid team stdout adds appended written].
    now rewrite Nat.add_0_r, app_nil_r, app_nil_r_string.
  - cbn [run_call]. rewrite display_team_run.
    cbn [snd next_oid team stdout adds appended written].
    now rewrite Nat.add_0_r, app_nil_r.
Qed.

Lemma find_loop_hit (lower : string -> string) (members : list TeamMember)
  (query : string) (m : TeamMember) :
  find_loop lower members query = VMember m ->
  In m members /\ lower (name m) = lower query.
Proof.
  induction members as [|m0 members IH]; [discriminate |].
  cbn [find_loop].
  destruct (String.eqb_spec (lower (name m0)) (lower query)) as [E | N].
  - intros H. injection H as <-. split; [now left | exact E].
  - intros H. destruct (IH H) as [Hin Hm]. split; [now right | exact Hm].
Qed.

Lemma find_loop_none (lower : string -> string) (members : list TeamMember)
  (query : string) :
  find_loop lower members query = VNone ->
  Forall (fun m => lower (name m) <> lower query) members.
Proof.
  induction members as [|m0 members IH]; [constructor |].
  cbn [find_loop].
  destruct (String.eqb_spec (lower (name m0)) (lower query)) as [E | N].
  - discriminate.
  - intros H. constructor; [exact N | exact (IH H)].
Qed.

Lemma fresh_ids_seeded : fresh_ids seeded.
Proof.
  split.
  - repeat constructor.
  - cbn. repeat constructor; cbn; intuition discriminate.
Qed.

Lemma fresh_ids_run_call (lower : string -> string) (c : call) (w : World) :
  fresh_ids w -> fresh_ids (execState (run_call lower c) w).
Proof.
  intros [Hlt Hnd]. rewrite run_call_exec. unfold fresh_ids.
  cbn [next_oid team]. destruct c as [n r f | q |]; cbn [appended adds].
  - split.
    + apply Forall_app. split.
      * eapply Forall_impl; [| exact Hlt]. cbn beta. intros m Hm. lia.
      * constructor; [cbn; lia | constructor].
    + rewrite map_app. cbn [map constructed oid].
      apply NoDup_app; [exact Hnd | repeat constructor; intros [] |].
      intros i Hi [<- | []]. apply in_map_iff in Hi.
      destruct Hi as (m & Hm & Hin).
      rewrite Forall_forall in Hlt. specialize (Hlt m Hin). lia.
  - rewrite app_nil_r, Nat.add_0_r. split; assumption.
  - rewrite app_nil_r, Nat.add_0_r. split; assumption.
Qed.

Lemma fresh_ids_run_calls (lower : string -> string) (cs : list call)
  (w : World) :
  fresh_ids w -> fresh_ids (execState (run_calls lower cs) w).
Proof.
  revert w. induction cs as [|c cs IH]; intros w Hw; [exact Hw |].
  rewrite run_calls_cons. apply IH, fresh_ids_run_call, Hw.
Qed.

Lemma next_oid_run_calls (lower : string -> string) (cs : list call)
  (w : World) :
  next_oid (execState (run_calls lower cs) w) = next_oid w + adds cs.
Proof.
  revert w. induction cs as [|c cs IH]; intros w.
  - cbn. lia.
  - rewrite run_calls_cons, IH, run_call_exec. cbn [next_oid].
    destruct c; cbn [adds]; lia.
Qed.

(** X1: the roster never holds one object twice.  After any sequence of
    calls on the seed roster the members are pairwise distinct objects,
    each constructed before the present value of the allocation counter,
    and the counter has advanced once per [add_member] call. *)
Theorem roster_objects_distinct (lower : string -> string) (cs : list call) :
  let w := execState (run_calls lower cs) seeded in
  NoDup (team w)
  /\ NoDup (map oid (team w))
  /\ Forall (fun m => oid m < next_oid w) (team w)
  /\ next_oid w = 3 + adds cs.
Proof.
  cbv zeta.
  destruct (fresh_ids_run_calls lower cs fresh_ids_seeded) as [Hlt Hnd].
  split; [exact (NoDup_map_inv oid _ Hnd) |].
  split; [exact Hnd |]. split; [exact Hlt |].
  now rewrite next_oid_run_calls.
Qed.

(** X2: looking up after an insertion.  After [add_member n r f], a query
    that had an answer keeps it; a query without one is answered by the new
    member exactly when its lowered form is that of [n]; so the name just
    added is always found. *)
Theorem find_after_add
  (lower : string -> string) (n r f query : string) (w : World) :
  let w1 := execState (add_member n r f) w in
  evalState (find_member lower query) w1
  = match evalState (find_member lower query) w with
    | VNone =>
        if (lower n =? lower query)%string
        then VMember (constructed w n r f)
        else VNone
    | hit => hit
    end
  /\ evalState (find_member lower n) w1 <> VNone.
Proof.
  cbv zeta. unfold execState, evalState.
  rewrite add_member_run, !find_member_run. cbn [fst snd team].
  rewrite !find_loop_app. cbn [find_loop name]. split; [reflexivity |].
  rewrite String.eqb_refl.
  destruct (find_loop lower (team w) n); discriminate.
Qed.

(** X3: an answer, once given, stays.  If [find_member] returns a member
    for a query, it returns the same member for that query after any
    further sequence of calls. *)
Theorem find_answer_is_stable
  (lower : string -> string) (cs : list call) (query : string)
  (w : World) (m : TeamMember) :
  evalState (find_member lower query) w = VMember m ->
  evalState (find_member lower query) (execState (run_calls lower cs) w)
  = VMember m.
Proof.
  unfold evalState. rewrite !find_member_run. cbn [fst]. intros H.
  destruct (run_calls_team lower cs w) as (added & -> & _).
  now rewrite find_loop_app, H.
Qed.

Lemma find_answer_is_stable_on_seed :
  evalState (find_member PyStr.lower_ascii "BOB WANG") seeded
  = VMember (mkTeamMember 1 "Bob Wang" "DevOps Engineer" "Go")
  /\ evalState (find_member PyStr.lower_ascii "BOB WANG")
       (execState
          (run_calls PyStr.lower_ascii
             [CallAdd "bob wang" "Intern" "Rust"; CallDisplay])
          seeded)
     = VMember (mkTeamMember 1 "Bob Wang" "DevOps Engineer" "Go").
Proof.
  split.
  - reflexivity.
  - apply (@find_answer_is_stable PyStr.lower_ascii
             [CallAdd "bob wang" "Intern" "Rust"; CallDisplay]
             "BOB WANG" seeded).
    reflexivity.
Defined.

Lemma stdout_run_calls (lower : string -> string) (cs : list call)
  (w : World) :
  exists text,
    stdout (execState (run_calls lower cs) w) = (stdout w ++ text)%string
    /\ (Forall (fun c => exists q, c = CallFind q) cs -> text = EmptyString).
Proof.
  revert w. induction cs as [|c cs IH]; intros w.
  - exists EmptyString. split; [cbn; now rewrite app_nil_r_string | reflexivity].
  - rewrite run_calls_cons.
    destruct (IH (execState (run_call lower c) w)) as (text & Ht & Hf).
    rewrite Ht, run_call_exec. cbn [stdout].
    exists (written w c ++ text)%string. split.
    + now rewrite app_assoc_string.
    + intros Hall. inversion Hall as [| ? ? [q ->] Hrest]. subst.
      rewrite (Hf Hrest). reflexivity.
Qed.

Lemma length_app_string (a b : string) :
  String.length (a ++ b) = String.length a + String.length b.
Proof. induction a as [|c a IH]; cbn; [reflexivity | now rewrite IH]. Qed.

(** X4: standard output only grows.  After any sequence of calls the text
    written so far starts with the text written before, and a sequence made
    of [find_member] calls alone adds nothing to it. *)
Theorem stdout_only_grows
  (lower : string -> string) (cs : list call) (w : World) :
  exists text,
    stdout (execState (run_calls lower cs) w) = (stdout w ++ text)%string
    /\ String.length (stdout w)
       <= String.length (stdout (execState (run_calls lower cs) w))
    /\ (Forall (fun c => exists q, c = CallFind q) cs -> text = EmptyString).
Proof.
  destruct (stdout_run_calls lower cs w) as (text & Ht & Hf).
  exists text. split; [exact Ht |]. split; [| exact Hf].
  rewrite Ht, length_app_string. lia.
Qed.

Lemma add_calls_run (lower : string -> string)
  (ts : list (string * string * string)) (w : World) :
  map attrs (team (execState (run_calls lower (add_calls ts)) w))
  = map attrs (team w) ++ ts
  /\ stdout (execState (run_calls lower (add_calls ts)) w)
     = (stdout w
        ++ String.concat EmptyString
             (map (fun t => welcome (fst (fst t))) ts))%string.
Proof.
  revert w. induction ts as [|[[n r] f] ts IH]; intros w.
  - cbn. now rewrite app_nil_r, app_nil_r_string.
  - change (add_calls ((n, r, f) :: ts))
      with (CallAdd n r f :: add_calls ts).
    rewrite run_calls_cons.
    destruct (IH (execState (run_call lower (CallAdd n r f)) w)) as [Ht Ho].
    rewrite Ht, Ho, run_call_exec.
    cbn [team stdout appended written fst snd map].
    rewrite map_app, <- app_assoc. split; [reflexivity |].
    rewrite <- app_assoc_string. f_equal.
    destruct ts as [|t ts]; [cbn; now rewrite app_nil_r_string | reflexivity].
Qed.

(** X5: adding in bulk keeps order and content.  A run of [add_member]
    calls appends members carrying exactly the given triples, in the order
    of the calls, after the members already present, and writes one welcome
    line per call in the same order. *)
Theorem add_many_keeps_order
  (lower : string -> string) (ts : list (string * string * string))
  (w : World) :
  let w' := execState (run_calls lower (add_calls ts)) w in
  map attrs (team w') = map attrs (team w) ++ ts
  /\ length (team w') = length (team w) + length ts
  /\ stdout w'
     = (stdout w
        ++ String.concat EmptyString
             (map (fun t => welcome (fst (fst t))) ts))%string.
Proof.
  cbv zeta. destruct (add_calls_run lower ts w) as [Ht Ho].
  split; [exact Ht |]. split; [| exact Ho].
  apply (f_equal (@length _)) in Ht.
  now rewrite length_app, !length_map in Ht.
Qed.

Lemma added_by_length (k : nat) (cs : list call) :
  length (added_by k cs) = adds cs.
Proof.
  revert k. induction cs as [|c cs IH]; intros k; [reflexivity |].
  destruct c; cbn [added_by adds length]; now rewrite IH.
Qed.

Lemma run_calls_team_exact (lower : string -> string) (cs : list call)
  (w : World) :
  team (execState (run_calls lower cs) w)
  = team w ++ added_by (next_oid w) cs.
Proof.
  revert w. induction cs as [|c cs IH]; intros w.
  - cbn. now rewrite app_nil_r.
  - rewrite run_calls_cons, IH, run_call_exec. cbn [team next_oid].
    rewrite <- app_assoc. f_equal.
    destruct c as [n r f | q |]; cbn [adds appended added_by constructed].
    + now rewrite Nat.add_1_r.
    + now rewrite Nat.add_0_r.
    + now rewrite Nat.add_0_r.
Qed.

(** X6: the displayed total follows the calls.  After any sequence of
    calls on the seed roster, the roster is the three seed members followed
    by the members the [add_member] calls constructed, in call order, and
    [display_team] writes the three seed lines first, then the
    introduction of each of these members in that order, and reports 3
    plus the number of [add_member] calls as the total. *)
Theorem display_after_calls (lower : string -> string) (cs : list call) :
  let w := execState (run_calls lower cs) seeded in
  team w = team seeded ++ added_by 3 cs
  /\ length (added_by 3 cs) = adds cs
  /\ stdout (execState display_team w)
     = (stdout w
        ++ unlines
             ([ banner;
                "TEAM ROSTER";
                banner;
                "Hi! I'm Alice Chen, a Senior Developer. I love coding in Python!";
                "Hi! I'm Bob Wang, a DevOps Engineer. I love coding in Go!";
                "Hi! I'm Carol Lin, a Frontend Developer. I love coding in JavaScript!" ]
                ++ map introduce (added_by 3 cs)
                ++ [EmptyString;
                    ("Total team members: "
                       ++ PyStr.format_int (3 + adds cs))%string;
                    banner]))%string
  /\ stdout
       (execState display_team
          (execState
             (run_calls lower
                [CallAdd "Dana Kim" "Intern" "Rust"; CallFind "dana kim";
                 CallAdd "Eli Roth" "Manager" "C"])
             seeded))
     = unlines
         [ "Welcome Dana Kim to the team!";
           "Welcome Eli Roth to the team!";
           banner;
           "TEAM ROSTER";
           banner;
           "Hi! I'm Alice Chen, a Senior Developer. I love coding in Python!";
           "Hi! I'm Bob Wang, a DevOps Engineer. I love coding in Go!";
           "Hi! I'm Carol Lin, a Frontend Developer. I love coding in JavaScript!";
           "Hi! I'm Dana Kim, a Intern. I love coding in Rust!";
           "Hi! I'm Eli Roth, a Manager. I love coding in C!";
           EmptyString;
           "Total team members: 5";
           banner ].
Proof.
  cbv zeta.
  assert (Ht : team (execState (run_calls lower cs) seeded)
               = team seeded ++ added_by 3 cs)
    by exact (run_calls_team_exact lower cs seeded).
  split; [exact Ht |]. split; [apply added_by_length |]. split.
  - unfold execState at 1. rewrite display_team_run. cbn [snd stdout].
    unfold block. rewrite Ht, map_app, length_app, added_by_length.
    reflexivity.
  - unfold execState at 1. rewrite display_team_run. cbn [snd stdout].
    rewrite !run_calls_cons, !run_call_exec. reflexivity.
Qed.

(** X7: only the lowered query matters.  Two queries with the same
    lowered form get the same answer in every state. *)
Theorem find_member_lowered_query
  (lower : string -> string) (q1 q2 : string) (w : World) :
  lower q1 = lower q2 ->
  runState (find_member lower q1) w = runState (find_member lower q2) w.
Proof.
  intros E. rewrite !find_member_run.
  now rewrite (find_loop_lower_eq lower (team w) q1 q2 E).
Qed.

Lemma find_member_lowered_query_on_seed :
  PyStr.lower_ascii "cArOl LiN" = PyStr.lower_ascii "CAROL lin"
  /\ runState (find_member PyStr.lower_ascii "cArOl LiN") seeded
     = runState (find_member PyStr.lower_ascii "CAROL lin") seeded.
Proof.
  split.
  - reflexivity.
  - apply (@find_member_lowered_query PyStr.lower_ascii
             "cArOl LiN" "CAROL lin" seeded).
    reflexivity.
Defined.

(** X8: a found member is found again under its own name.  If
    [find_member] answers a query with a member, then querying that
    member's stored name returns the same member. *)
Theorem find_by_found_name
  (lower : string -> string) (query : string) (w : World) (m : TeamMember) :
  evalState (find_member lower query) w = VMember m ->
  evalState (find_member lower (name m)) w = VMember m.
Proof.
  unfold evalState. rewrite !find_member_run. cbn [fst]. intros H.
  destruct (find_loop_hit lower (team w) query H) as [_ E].
  now rewrite (find_loop_lower_eq lower (team w) (name m) query E).
Qed.

Lemma find_by_found_name_on_seed :
  evalState (find_member PyStr.lower_ascii "ALICE CHEN") seeded
  = VMember (mkTeamMember 0 "Alice Chen" "Senior Developer" "Python")
  /\ evalState (find_member PyStr.lower_ascii "Alice Chen") seeded
     = VMember (mkTeamMember 0 "Alice Chen" "Senior Developer" "Python").
Proof.
  split.
  - reflexivity.
  - apply (@find_by_found_name PyStr.lower_ascii "ALICE CHEN" seeded
             (mkTeamMember 0 "Alice Chen" "Senior Developer" "Python")).
    reflexivity.
Defined.

Lemma find_loop_unique (lower : string -> string)
  (members : list TeamMember) (m : TeamMember) :
  NoDup (map (fun m' => lower (name m')) members) ->
  In m members ->
  find_loop lower members (name m) = VMember m.
Proof.
  induction members as [|m0 members IH]; intros Hnd Hin; [destruct Hin |].
  cbn [map] in Hnd. inversion Hnd as [| ? ? Hnotin Hnd']. subst.
  cbn [find_loop]. destruct Hin as [-> | Hin].
  - now rewrite String.eqb_refl.
  - destruct (String.eqb_spec (lower (name m0)) (lower (name m))) as [E | N].
    + exfalso. apply Hnotin. rewrite E.
      exact (in_map (fun m' => lower (name m')) members m Hin).
    + exact (IH Hnd' Hin).
Qed.

(** X9: with names that stay distinct once lowered, every member is
    reachable.  If no two members of the roster have the same lowered
    name, [find_member] on the stored name of any member of the roster
    returns that member. *)
Theorem find_reaches_every_member
  (lower : string -> string) (w : World) (m : TeamMember) :
  NoDup (map (fun m' => lower (name m')) (team w)) ->
  In m (team w) ->
  evalState (find_member lower (name m)) w = VMember m.
Proof.
  intros Hnd Hin. unfold evalState. rewrite find_member_run. cbn [fst].
  exact (find_loop_unique lower (team w) m Hnd Hin).
Qed.

Lemma find_reaches_every_member_on_seed :
  NoDup (map (fun m' => PyStr.lower_ascii (name m')) (team seeded))
  /\ In (mkTeamMember 2 "Carol Lin" "Frontend Developer" "JavaScript")
       (team seeded)
  /\ evalState (find_member PyStr.lower_ascii "Carol Lin") seeded
     = VMember (mkTeamMember 2 "Carol Lin" "Frontend Developer" "JavaScript").
Proof.
  assert (Hnd : NoDup (map (fun m' => PyStr.lower_ascii (name m'))
                         (team seeded))).
  { cbn. repeat constructor; cbn; intuition discriminate. }
  assert (Hin : In (mkTeamMember 2 "Carol Lin" "Frontend Developer"
                      "JavaScript") (team seeded)).
  { cbn. right. right. left. reflexivity. }
  split; [exact Hnd |]. split; [exact Hin |].
  exact (@find_reaches_every_member PyStr.lower_ascii seeded
           (mkTeamMember 2 "Carol Lin" "Frontend Developer" "JavaScript")
           Hnd Hin).
Defined.

(** X10: a later namesake is out of reach.  A member that stands in the
    roster behind another object whose lowered name is the same is never
    the answer of [find_member], whatever the query. *)
Theorem shadowed_member_never_found
  (lower : string -> string) (w : World)
  (before after : list TeamMember) (m : TeamMember) (query : string) :
  team w = before ++ m :: after ->
  ~ In m before ->
  Exists (fun m' => lower (name m') = lower (name m)) before ->
  evalState (find_member lower query) w <> VMember m.
Proof.
  intros Ht Hnotin Hex. unfold evalState. rewrite find_member_run.
  cbn [fst]. rewrite Ht, find_loop_app.
  destruct (find_loop lower before query) as [|h] eqn:Hb.
  - intros H. destruct (find_loop_hit lower (m :: after) query H) as [_ Em].
    apply find_loop_none in Hb. apply Exists_exists in Hex.
    destruct Hex as (m' & Hin & E). rewrite Forall_forall in Hb.
    apply (Hb m' Hin). now rewrite E.
  - intros H. injection H as ->.
    destruct (find_loop_hit lower before query Hb) as [Hin _].
    exact (Hnotin Hin).
Qed.

Lemma shadowed_member_never_found_on_seed :
  team (execState (add_member "ALICE CHEN" "Intern" "Rust") seeded)
  = team seeded ++ mkTeamMember 3 "ALICE CHEN" "Intern" "Rust" :: []
  /\ ~ In (mkTeamMember 3 "ALICE CHEN" "Intern" "Rust") (team seeded)
  /\ Exists (fun m' => PyStr.lower_ascii (name m')
                = PyStr.lower_ascii
                    (name (mkTeamMember 3 "ALICE CHEN" "Intern" "Rust")))
       (team seeded)
  /\ evalState (find_member PyStr.lower_ascii "ALICE CHEN")
       (execState (add_member "ALICE CHEN" "Intern" "Rust") seeded)
     <> VMember (mkTeamMember 3 "ALICE CHEN" "Intern" "Rust").
Proof.
  assert (Ht : team (execState (add_member "ALICE CHEN" "Intern" "Rust")
                       seeded)
               = team seeded
                 ++ mkTeamMember 3 "ALICE CHEN" "Intern" "Rust" :: [])
    by reflexivity.
  assert (Hnotin : ~ In (mkTeamMember 3 "ALICE CHEN" "Intern" "Rust")
                     (team seeded)).
  { cbn. intuition discriminate. }
  assert (Hex : Exists (fun m' => PyStr.lower_ascii (name m')
                  = PyStr.lower_ascii
                      (name (mkTeamMember 3 "ALICE CHEN" "Intern" "Rust")))
                  (team seeded)).
  { cbn. left. reflexivity. }
  split; [exact Ht |]. split; [exact Hnotin |]. split; [exact Hex |].
  exact (@shadowed_member_never_found PyStr.lower_ascii _ _ _ _
           "ALICE CHEN" Ht Hnotin Hex).
Defined.

Lemma count_nl_app (a b : string) :
  count_nl (a ++ b) = count_nl a + count_nl b.
Proof.
  induction a as [|c a IH]; [reflexivity |].
  cbn [append count_nl]. rewrite IH. lia.
Qed.

Lemma count_nl_uint (d : Decimal.uint) :
  count_nl (NilEmpty.string_of_uint d) = 0.
Proof. induction d; cbn; try reflexivity; assumption. Qed.

Lemma count_nl_introduce (m : TeamMember) :
  count_nl (introduce m) = attr_nl m.
Proof.
  unfold introduce, attr_nl. rewrite !count_nl_app.
  change (count_nl "Hi! I'm ") with 0. change (count_nl ", a ") with 0.
  change (count_nl ". I love coding in ") with 0.
  change (count_nl "!") with 0. lia.
Qed.

Lemma count_nl_unlines (ls : list string) :
  count_nl (unlines ls) = length ls + list_sum (map count_nl ls).
Proof.
  induction ls as [|l ls IH]; [reflexivity |].
  change (unlines (l :: ls)) with (l ++ PyStr.nl ++ unlines ls)%string.
  rewrite !count_nl_app, IH. change (count_nl PyStr.nl) with 1.
  cbn [length map]. change (list_sum (count_nl l :: map count_nl ls))
    with (count_nl l + list_sum (map count_nl ls)). lia.
Qed.

Lemma list_sum_all_zero (l : list TeamMember) :
  Forall (fun m => attr_nl m = 0) l -> list_sum (map attr_nl l) = 0.
Proof.
  induction l as [|m l IH]; intros Hall; [reflexivity |].
  inversion Hall as [| ? ? Hm Hl]. subst.
  cbn [map]. change (list_sum (attr_nl m :: map attr_nl l))
    with (attr_nl m + list_sum (map attr_nl l)).
  rewrite Hm. exact (IH Hl).
Qed.

(** X11: one line per member.  The block [display_team] writes holds
    as many line terminators as the roster has members, plus six for the
    frame, plus those that occur inside the members' own attributes; with
    attributes free of line terminators that is the number of members
    plus six. *)
Theorem display_team_line_count (w : World) :
  exists text,
    stdout (execState display_team w) = (stdout w ++ text)%string
    /\ count_nl text
       = length (team w) + 6 + list_sum (map attr_nl (team w))
    /\ (Forall (fun m => attr_nl m = 0) (team w) ->
        count_nl text = length (team w) + 6).
Proof.
  exists (block (team w)). unfold execState. rewrite display_team_run.
  cbn [snd stdout]. split; [reflexivity |].
  assert (E : count_nl (block (team w))
              = length (team w) + 6 + list_sum (map attr_nl (team w))).
  { unfold block. rewrite count_nl_unlines, !length_app, !map_app.
    rewrite !list_sum_app, !length_map, map_map.
    rewrite (map_ext _ _ count_nl_introduce).
    cbn [length map list_sum fold_right]. rewrite count_nl_app.
    unfold PyStr.format_int. rewrite count_nl_uint.
    change (count_nl banner) with 0.
    change (count_nl "TEAM ROSTER") with 0.
    change (count_nl "Total team members: ") with 0.
    change (count_nl EmptyString) with 0. lia. }
  split; [exact E |]. intros Hall. rewrite E.
  rewrite (list_sum_all_zero Hall). lia.
Qed.

(** X12: only [add_member] changes what is displayed.  After a sequence of
    calls with no [add_member] among them the roster is the same list of
    the same objects, and [display_team] writes the block it would have
    written before. *)
Theorem display_unchanged_without_add
  (lower : string -> string) (cs : list call) (w : World) :
  adds cs = 0 ->
  let w' := execState (run_calls lower cs) w in
  team w' = team w
  /\ next_oid w' = next_oid w
  /\ stdout (execState display_team w') = (stdout w' ++ block (team w))%string.
Proof.
  intros H0. cbv zeta.
  destruct (run_calls_team lower cs w) as (added & Ht & Hl).
  rewrite H0 in Hl. apply length_zero_iff_nil in Hl. subst added.
  rewrite app_nil_r in Ht. split; [exact Ht |].
  split; [rewrite next_oid_run_calls, H0; lia |].
  unfold execState at 1. rewrite display_team_run. cbn [snd stdout].
  now rewrite Ht.
Qed.

Lemma display_unchanged_without_add_on_seed :
  adds [CallFind "bob wang"; CallDisplay; CallFind "nobody"] = 0
  /\ team (execState
             (run_calls PyStr.lower_ascii
                [CallFind "bob wang"; CallDisplay; CallFind "nobody"])
             seeded)
     = team seeded.
Proof.
  split.
  - reflexivity.
  - apply (@display_unchanged_without_add PyStr.lower_ascii
             [CallFind "bob wang"; CallDisplay; CallFind "nobody"] seeded).
    reflexivity.
Defined.
